(** * A one-chip frequency meter with analog read-out (PIC12F675)

    Shallow embedding of [main.c]: the interrupt service routine [isr]
    (gate timer on TMR0, pulse counter on TMR1 with a software extension),
    [freq_init], and the PWM comparison of the main loop.

    Machine integers are [Z] with the wrap-around written out: [uint8_t]
    values live in [0, 2^8), the 16-bit TMR1 in [0, 2^16) and [uint32_t] /
    [unsigned long] values in [0, 2^32). *)

From Stdlib Require Import ZArith Bool List Lia.
Import ListNotations.
Local Open Scope Z_scope.

(** ** Machine integers *)

Definition u8 (z : Z) : Z := z mod 2 ^ 8.
Definition u16 (z : Z) : Z := z mod 2 ^ 16.
Definition u32 (z : Z) : Z := z mod 2 ^ 32.

(** ** Special function registers of the PIC12F675 used by [main.c] *)

Inductive sfr_reg : Set := TMR0 | TMR1 | GPIO | TRISIO.

Inductive sfr_bit : Set :=
| T0IF | T0IE | TMR1IF | TMR1IE | PEIE | GIE
| T0CS | PSA | PS2 | PS1 | PS0
| TMR1ON | TMR1GE | T1CKPS1 | T1CKPS0 | T1OSCEN | nT1SYNC | TMR1CS.

Scheme Equality for sfr_reg.
Scheme Equality for sfr_bit.

(** TMR1 is the 16-bit pair TMR1H:TMR1L, the other registers are bytes. *)
Definition sfr_wrap (r : sfr_reg) (v : Z) : Z :=
  match r with
  | TMR1 => u16 v
  | _ => u8 v
  end.

(** ** Program state: the three globals of [main.c] and the registers *)

Record mcu : Type := MCU {
  freq : Z;                 (* volatile uint32_t freq *)
  pwm_dc : Z;               (* volatile uint8_t pwm_dc *)
  freq_cnt : Z;             (* volatile uint8_t freq_cnt *)
  sfr : sfr_reg -> Z;
  flag : sfr_bit -> bool
}.

Definition set_freq (v : Z) (s : mcu) : mcu :=
  MCU (u32 v) (pwm_dc s) (freq_cnt s) (sfr s) (flag s).

Definition set_pwm_dc (v : Z) (s : mcu) : mcu :=
  MCU (freq s) (u8 v) (freq_cnt s) (sfr s) (flag s).

Definition set_freq_cnt (v : Z) (s : mcu) : mcu :=
  MCU (freq s) (pwm_dc s) (u8 v) (sfr s) (flag s).

Definition set_sfr (r : sfr_reg) (v : Z) (s : mcu) : mcu :=
  MCU (freq s) (pwm_dc s) (freq_cnt s)
      (fun r' => if sfr_reg_beq r' r then sfr_wrap r v else sfr s r')
      (flag s).

Definition set_flag (b : sfr_bit) (v : bool) (s : mcu) : mcu :=
  MCU (freq s) (pwm_dc s) (freq_cnt s) (sfr s)
      (fun b' => if sfr_bit_beq b' b then v else flag s b').

(** ** Hardware configuration and global defines *)

Definition PWM_PORT : sfr_reg := GPIO.
Definition PWM_DDR : sfr_reg := TRISIO.
Definition PWM_PIN : Z := Z.shiftl 1 0.
Definition PWM_CNT : sfr_reg := TMR0.

Definition LED_PORT : sfr_reg := GPIO.
Definition LED_DDR : sfr_reg := TRISIO.
Definition LED_PIN : Z := Z.shiftl 1 1.

Definition FREQ_CNT : Z := 200.
Definition FREQ_HIGH : Z := 20.

(** Modelled from the spec: the macro [IO_SET] comes from [gpio.h], which is
    not among the sources.  The spec has a pin "driven high" by it, so it
    is [port |= pins]. *)
Definition IO_SET (port : sfr_reg) (pins : Z) (s : mcu) : mcu :=
  set_sfr port (Z.lor (sfr s port) pins) s.

(** Modelled from the spec: the macro [IO_CLR] comes from [gpio.h], which is
    not among the sources.  The spec has a pin "driven low" by it, so it is
    [port &= ~pins]. *)
Definition IO_CLR (port : sfr_reg) (pins : Z) (s : mcu) : mcu :=
  set_sfr port (Z.land (sfr s port) (Z.lnot pins)) s.

(** Modelled from the spec: the macro [IO_OUT] comes from [gpio.h], which is
    not among the sources.  The spec has the two pins as digital outputs;
    on this part a cleared TRISIO bit makes the pin an output, so it is
    [ddr &= ~pins]. *)
Definition IO_OUT (ddr : sfr_reg) (pins : Z) (s : mcu) : mcu :=
  set_sfr ddr (Z.land (sfr s ddr) (Z.lnot pins)) s.

(** Level of pin [n] of a port. *)
Definition pin (port : sfr_reg) (n : Z) (s : mcu) : bool :=
  Z.testbit (sfr s port) n.

(** ** The interrupt service routine *)

(** [T0IF = 0; freq_cnt -= 1;] *)
Definition tick_prologue (s : mcu) : mcu :=
  let s := set_flag T0IF false s in
  set_freq_cnt (freq_cnt s - 1) s.

(** [freq |= TMR1; TMR1 = 0; freq10 = freq; freq = 0; freq_cnt = FREQ_CNT;]
    returns the local [freq10] together with the state. *)
Definition gate_latch (s : mcu) : Z * mcu :=
  let s := set_freq (Z.lor (freq s) (sfr s TMR1)) s in
  let s := set_sfr TMR1 0 s in
  let freq10 := freq s in
  let s := set_freq 0 s in
  let s := set_freq_cnt FREQ_CNT s in
  (freq10, s).

(** "convert freq10 to pwm duty cycle": the [if]/[else] on [freq10].  The
    constants are [unsigned long] expressions; the quotient is stored into
    the 8-bit [pwm_dc]. *)
Definition freq2pwm (freq10 : Z) (s : mcu) : mcu :=
  if freq10 >=? u32 (u32 (u32 (256 * FREQ_CNT) * FREQ_HIGH) / 10) then
    let s := set_pwm_dc (freq10 / u32 (FREQ_CNT * (FREQ_HIGH / 1))) s in
    IO_SET LED_PORT LED_PIN s
  else
    let s := set_pwm_dc (freq10 / u32 (FREQ_CNT * (FREQ_HIGH / 10))) s in
    IO_CLR LED_PORT LED_PIN s.

(** The block [if (T0IF) { ... }]. *)
Definition tmr0_isr (s : mcu) : mcu :=
  if flag s T0IF then
    let s := tick_prologue s in
    if freq_cnt s =? 0 then
      let '(freq10, s) := gate_latch s in
      freq2pwm freq10 s
    else s
  else s.

(** The block [if (TMR1IF) { ... }]. *)
Definition tmr1_isr (s : mcu) : mcu :=
  if flag s TMR1IF then
    let s := set_flag TMR1IF false s in
    set_freq (freq s + 0x10000) s
  else s.

Definition isr (s : mcu) : mcu := tmr1_isr (tmr0_isr s).

(** ** Initialisation *)

Definition freq_init (s : mcu) : mcu :=
  let s := set_pwm_dc 0 s in
  let s := set_freq_cnt FREQ_CNT s in
  let s := IO_OUT LED_DDR LED_PIN s in
  let s := IO_CLR PWM_PORT PWM_PIN s in
  let s := IO_OUT PWM_DDR PWM_PIN s in
  let s := set_flag T0CS false s in
  let s := set_flag PSA false s in
  let s := set_flag PS2 false s in
  let s := set_flag PS1 true s in
  let s := set_flag PS0 false s in
  let s := set_sfr TMR0 0 s in
  let s := set_flag T0IF false s in
  let s := set_flag T0IE true s in
  let s := set_flag TMR1ON false s in
  let s := set_flag TMR1GE false s in
  let s := set_flag T1CKPS1 true s in
  let s := set_flag T1CKPS0 true s in
  let s := set_flag T1OSCEN false s in
  let s := set_flag nT1SYNC true s in
  let s := set_flag TMR1CS true s in
  let s := set_sfr TMR1 0 s in
  let s := set_flag TMR1IF false s in
  let s := set_flag TMR1IE true s in
  let s := set_flag PEIE true s in
  set_flag TMR1ON true s.

Definition ei (s : mcu) : mcu := set_flag GIE true s.

(** ** The main loop *)

(** One iteration of [while (1)]: the PWM comparison. *)
Definition pwm_output (s : mcu) : mcu :=
  if sfr s PWM_CNT >? pwm_dc s then IO_CLR PWM_PORT PWM_PIN s
  else IO_SET PWM_PORT PWM_PIN s.

(** ** The hardware around the program *)

(** What the peripherals did since the program last looked: interrupt flags
    raised (flags are sticky, only software clears them) and the current
    values of the two counters. *)
Record hw_event : Type := HwEvent {
  ev_t0if : bool;
  ev_tmr1if : bool;
  ev_tmr0 : Z;
  ev_tmr1 : Z
}.

Definition hw_raise (e : hw_event) (s : mcu) : mcu :=
  let s := set_flag T0IF (flag s T0IF || ev_t0if e) s in
  let s := set_flag TMR1IF (flag s TMR1IF || ev_tmr1if e) s in
  let s := set_sfr TMR0 (ev_tmr0 e) s in
  set_sfr TMR1 (ev_tmr1 e) s.

(** One interrupt: the hardware state is sampled, then [isr] runs to
    completion. *)
Definition irq (e : hw_event) (s : mcu) : mcu := isr (hw_raise e s).

Definition run (es : list hw_event) (s : mcu) : mcu :=
  fold_left (fun s e => irq e s) es s.

(** Number of events of a list that raise a given flag. *)
Definition ticks (es : list hw_event) : Z :=
  Z.of_nat (length (filter ev_t0if es)).

Definition overflows (es : list hw_event) : Z :=
  Z.of_nat (length (filter ev_tmr1if es)).

(** Modelled from the spec: [mcu_init], called by [main] before
    [freq_init] and [ei], is not among the sources.  The spec treats device
    bring-up as glue outside the meter and has the meter's state zeroed at
    initialisation, so the state [mcu_init] leaves is any [s0] in which the
    zero-initialised global [freq] is still zero.  From there the running
    program takes interrupts and passes through its output loop. *)
Inductive reachable : mcu -> Prop :=
| reach_boot : forall s0, freq s0 = 0 -> reachable (ei (freq_init s0))
| reach_irq : forall s e, reachable s -> reachable (irq e s)
| reach_loop : forall s tmr0,
    reachable s -> reachable (pwm_output (set_sfr TMR0 tmr0 s)).

(** The pulse count latched by a gate closure entered in state [s]. *)
Definition effective_count (s : mcu) : Z := fst (gate_latch (tick_prologue s)).

(** The timer-tick handler closes the gate in state [s]. *)
Definition closes_gate (s : mcu) : Prop :=
  flag s T0IF = true /\ freq_cnt (tick_prologue s) = 0.

(** A concrete power-on state, and the state in which the closing tick of
    the first gate window is taken after [n] overflow interrupts and with
    [r] in the raw counter: the program is booted, serves [n] overflow
    interrupts and 199 timer ticks, and the 200th tick is pending. *)
Definition power_on : mcu := MCU 0 0 0 (fun _ => 0) (fun _ => false).

Definition tick_ev : hw_event := HwEvent true false 0 0.
Definition overflow_ev : hw_event := HwEvent false true 0 0.

Definition closing (n : nat) (r : Z) : mcu :=
  hw_raise (HwEvent true false 0 r)
           (run (repeat overflow_ev n ++ repeat tick_ev 199)
                (ei (freq_init power_on))).

(** The accumulator invariant: a 32-bit multiple of the quantum. *)
Definition acc_ok (s : mcu) : Prop :=
  0 <= freq s < 2 ^ 32 /\ freq s mod 2 ^ 16 = 0.

(** What "approximately 255" can mean at most: within [tol] of the top. *)
Definition near_full_duty (tol d : Z) : Prop := 255 - tol <= d <= 255.

(** The values TMR0 runs through in one PWM period, and the number of them
    at which a pass of the output loop leaves the PWM pin high. *)
Definition tmr0_values : list Z := map Z.of_nat (seq 0 256).

Definition high_time (s : mcu) : Z :=
  Z.of_nat (length (filter
    (fun t => pin PWM_PORT 0 (pwm_output (set_sfr PWM_CNT t s)))
    tmr0_values)).

(** * Basic facts *)

Ltac run_code := vm_compute; first [reflexivity | discriminate].

Lemma threshold_value :
  u32 (u32 (u32 (256 * FREQ_CNT) * FREQ_HIGH) / 10) = 102400.
Proof. reflexivity. Qed.

Lemma high_divisor_value : u32 (FREQ_CNT * (FREQ_HIGH / 1)) = 4000.
Proof. reflexivity. Qed.

Lemma low_divisor_value : u32 (FREQ_CNT * (FREQ_HIGH / 10)) = 400.
Proof. reflexivity. Qed.

Lemma u8_range z : 0 <= u8 z < 256.
Proof. unfold u8. change (2 ^ 8) with 256. apply Z.mod_pos_bound. lia. Qed.

Lemma u16_range z : 0 <= u16 z < 65536.
Proof. unfold u16. change (2 ^ 16) with 65536. apply Z.mod_pos_bound. lia. Qed.

Lemma u32_range z : 0 <= u32 z < 4294967296.
Proof.
  unfold u32. change (2 ^ 32) with 4294967296. apply Z.mod_pos_bound. lia.
Qed.

Lemma u8_small z : 0 <= z < 256 -> u8 z = z.
Proof. intros H. unfold u8. apply Z.mod_small. exact H. Qed.

Lemma u32_small z : 0 <= z < 4294967296 -> u32 z = z.
Proof. intros H. unfold u32. apply Z.mod_small. exact H. Qed.

(** Port writes, bit by bit. *)
Lemma IO_SET_GPIO_pin n s :
  0 <= n < 8 -> pin GPIO n (IO_SET GPIO (Z.shiftl 1 n) s) = true.
Proof.
  intros Hn. unfold pin, IO_SET. simpl. unfold u8.
  rewrite Z.mod_pow2_bits_low by lia.
  rewrite Z.lor_spec, Z.shiftl_spec by lia.
  rewrite Z.sub_diag. apply orb_true_r.
Qed.

Lemma IO_CLR_GPIO_pin n s :
  0 <= n < 8 -> pin GPIO n (IO_CLR GPIO (Z.shiftl 1 n) s) = false.
Proof.
  intros Hn. unfold pin, IO_CLR. simpl. unfold u8.
  rewrite Z.mod_pow2_bits_low by lia.
  rewrite Z.land_spec, Z.lnot_spec, Z.shiftl_spec by lia.
  rewrite Z.sub_diag. apply andb_false_r.
Qed.

(** The overflow handler touches neither the duty cycle, nor the
    downcounter, nor any register. *)
Lemma tmr1_isr_pwm_dc s : pwm_dc (tmr1_isr s) = pwm_dc s.
Proof. unfold tmr1_isr. destruct (flag s TMR1IF); reflexivity. Qed.

Lemma tmr1_isr_freq_cnt s : freq_cnt (tmr1_isr s) = freq_cnt s.
Proof. unfold tmr1_isr. destruct (flag s TMR1IF); reflexivity. Qed.

Lemma tmr1_isr_sfr s r : sfr (tmr1_isr s) r = sfr s r.
Proof. unfold tmr1_isr. destruct (flag s TMR1IF); reflexivity. Qed.

Lemma tmr1_isr_pin s port n : pin port n (tmr1_isr s) = pin port n s.
Proof. unfold pin. rewrite tmr1_isr_sfr. reflexivity. Qed.

(** The classifier, branch by branch. *)
Lemma freq2pwm_high c s :
  102400 <= c ->
  pwm_dc (freq2pwm c s) = u8 (c / 4000) /\ pin LED_PORT 1 (freq2pwm c s) = true.
Proof.
  intros Hc. unfold freq2pwm.
  rewrite threshold_value, high_divisor_value.
  destruct (Z.geb_spec c 102400) as [_ | Hlt]; [| lia].
  split; [reflexivity |].
  apply (IO_SET_GPIO_pin 1). lia.
Qed.

Lemma freq2pwm_low c s :
  c < 102400 ->
  pwm_dc (freq2pwm c s) = u8 (c / 400) /\ pin LED_PORT 1 (freq2pwm c s) = false.
Proof.
  intros Hc. unfold freq2pwm.
  rewrite threshold_value, low_divisor_value.
  destruct (Z.geb_spec c 102400) as [Hge | _]; [lia |].
  split; [reflexivity |].
  apply (IO_CLR_GPIO_pin 1). lia.
Qed.

Lemma freq2pwm_freq c s : freq (freq2pwm c s) = freq s.
Proof. unfold freq2pwm. destruct (_ >=? _); reflexivity. Qed.

Lemma freq2pwm_freq_cnt c s : freq_cnt (freq2pwm c s) = freq_cnt s.
Proof. unfold freq2pwm. destruct (_ >=? _); reflexivity. Qed.

(** A closing tick runs the latch and hands [effective_count] to the
    classifier. *)
Lemma tmr0_isr_closure s :
  closes_gate s ->
  tmr0_isr s = freq2pwm (effective_count s) (snd (gate_latch (tick_prologue s))).
Proof.
  intros [Hf Hz]. unfold tmr0_isr. rewrite Hf. cbv zeta. rewrite Hz.
  reflexivity.
Qed.

Lemma effective_count_eq s :
  effective_count s = u32 (Z.lor (freq s) (sfr s TMR1)).
Proof. reflexivity. Qed.

Lemma effective_count_range s : 0 <= effective_count s < 4294967296.
Proof. rewrite effective_count_eq. apply u32_range. Qed.

Lemma isr_closure_high s :
  closes_gate s -> 102400 <= effective_count s ->
  pwm_dc (isr s) = u8 (effective_count s / 4000) /\ pin LED_PORT 1 (isr s) = true.
Proof.
  intros Hg Hc. unfold isr.
  rewrite tmr1_isr_pwm_dc, tmr1_isr_pin, (tmr0_isr_closure s Hg).
  apply freq2pwm_high. exact Hc.
Qed.

Lemma isr_closure_low s :
  closes_gate s -> effective_count s < 102400 ->
  pwm_dc (isr s) = u8 (effective_count s / 400) /\ pin LED_PORT 1 (isr s) = false.
Proof.
  intros Hg Hc. unfold isr.
  rewrite tmr1_isr_pwm_dc, tmr1_isr_pin, (tmr0_isr_closure s Hg).
  apply freq2pwm_low. exact Hc.
Qed.

(** * The frequency classifier and duty-cycle mapper *)

(** C1, as the code has it: at a gate closure with a pulse count [c] at or
    above the threshold [256 * FREQ_CNT * FREQ_HIGH / 10], the duty-cycle
    register receives [c / (FREQ_CNT * FREQ_HIGH)] truncated to eight bits,
    which is the quotient itself as long as [c] stays below
    [256 * FREQ_CNT * FREQ_HIGH], and the range LED is set. *)
Theorem high_range_duty (s : mcu) :
  closes_gate s ->
  256 * FREQ_CNT * FREQ_HIGH / 10 <= effective_count s ->
  pwm_dc (isr s) = (effective_count s / (FREQ_CNT * FREQ_HIGH)) mod 2 ^ 8 /\
  (effective_count s < 256 * FREQ_CNT * FREQ_HIGH ->
   pwm_dc (isr s) = effective_count s / (FREQ_CNT * FREQ_HIGH)) /\
  pin LED_PORT 1 (isr s) = true.
Proof.
  change (256 * FREQ_CNT * FREQ_HIGH / 10) with 102400.
  change (256 * FREQ_CNT * FREQ_HIGH) with 1024000.
  change (FREQ_CNT * FREQ_HIGH) with 4000.
  intros Hg Hc.
  destruct (isr_closure_high s Hg Hc) as [Hd Hl].
  repeat split; [exact Hd | | exact Hl].
  intros Hlt. rewrite Hd. apply u8_small.
  split; [apply Z.div_pos; lia | apply Z.div_lt_upper_bound; lia].
Qed.

Lemma high_range_duty_witness :
  let s := closing 1 36864 in
  closes_gate s /\ effective_count s = 102400 /\
  pwm_dc (isr s) = 25 /\ pin LED_PORT 1 (isr s) = true.
Proof.
  intros s.
  assert (Hg : closes_gate s) by (split; run_code).
  assert (Hc : 256 * FREQ_CNT * FREQ_HIGH / 10 <= effective_count s)
    by (vm_compute; discriminate).
  destruct (high_range_duty s Hg Hc) as [_ [Hd Hl]].
  split; [exact Hg |]. split; [run_code |].
  split; [rewrite Hd by run_code; run_code | exact Hl].
Defined.

(** C1, as stated, fails at the count [256 * FREQ_CNT * FREQ_HIGH]: the
    quotient is 256 and the register holds 0. *)
Lemma high_range_duty_not_quotient :
  let s := closing 15 40960 in
  closes_gate s /\
  256 * FREQ_CNT * FREQ_HIGH / 10 <= effective_count s /\
  effective_count s / (FREQ_CNT * FREQ_HIGH) = 256 /\
  pwm_dc (isr s) <> effective_count s / (FREQ_CNT * FREQ_HIGH).
Proof.
  intros s.
  split; [split; run_code |].
  split; [vm_compute; discriminate |].
  split; [run_code |].
  vm_compute. discriminate.
Qed.

(** C2: at a gate closure with a pulse count [c] below the threshold
    [256 * FREQ_CNT * FREQ_HIGH / 10] (and [0 <= c], as every count is),
    the duty-cycle register receives [c / (FREQ_CNT * FREQ_HIGH / 10)] and
    the range LED is cleared; a count of zero gives a duty of zero. *)
Theorem low_range_duty (s : mcu) :
  closes_gate s ->
  effective_count s < 256 * FREQ_CNT * FREQ_HIGH / 10 ->
  0 <= effective_count s /\
  pwm_dc (isr s) = effective_count s / (FREQ_CNT * FREQ_HIGH / 10) /\
  pin LED_PORT 1 (isr s) = false /\
  (effective_count s = 0 -> pwm_dc (isr s) = 0).
Proof.
  change (256 * FREQ_CNT * FREQ_HIGH / 10) with 102400.
  change (FREQ_CNT * FREQ_HIGH / 10) with 400.
  intros Hg Hc.
  destruct (isr_closure_low s Hg Hc) as [Hd Hl].
  pose proof (effective_count_range s) as Hr.
  assert (Hq : pwm_dc (isr s) = effective_count s / 400).
  { rewrite Hd. apply u8_small.
    split; [apply Z.div_pos; lia | apply Z.div_lt_upper_bound; lia]. }
  repeat split; [lia | exact Hq | exact Hl |].
  intros H0. rewrite Hq, H0. reflexivity.
Qed.

Lemma low_range_duty_witness :
  let s := closing 1 36863 in
  closes_gate s /\ effective_count s = 102399 /\
  pwm_dc (isr s) = 255 /\ pin LED_PORT 1 (isr s) = false.
Proof.
  intros s.
  assert (Hg : closes_gate s) by (split; run_code).
  assert (Hc : effective_count s < 256 * FREQ_CNT * FREQ_HIGH / 10)
    by (vm_compute; reflexivity).
  destruct (low_range_duty s Hg Hc) as [_ [Hd [Hl _]]].
  split; [exact Hg |]. split; [run_code |].
  split; [exact Hd | exact Hl].
Defined.

(** C3: a pulse count equal to the threshold
    [256 * FREQ_CNT * FREQ_HIGH / 10] is classified as high range: the LED
    is set and the duty is the high-range quotient, 25. *)
Theorem threshold_is_high_range (s : mcu) :
  closes_gate s ->
  effective_count s = 256 * FREQ_CNT * FREQ_HIGH / 10 ->
  pin LED_PORT 1 (isr s) = true /\
  pwm_dc (isr s) = effective_count s / (FREQ_CNT * FREQ_HIGH).
Proof.
  change (256 * FREQ_CNT * FREQ_HIGH / 10) with 102400.
  change (FREQ_CNT * FREQ_HIGH) with 4000.
  intros Hg Hc.
  assert (Hge : 102400 <= effective_count s) by lia.
  destruct (isr_closure_high s Hg Hge) as [Hd Hl].
  split; [exact Hl |]. rewrite Hd, Hc. reflexivity.
Qed.

Lemma threshold_is_high_range_witness :
  let s := closing 1 36864 in
  closes_gate s /\ effective_count s = 102400 /\
  pin LED_PORT 1 (isr s) = true /\ pwm_dc (isr s) = 25.
Proof.
  intros s.
  assert (Hg : closes_gate s) by (split; run_code).
  assert (Hc : effective_count s = 256 * FREQ_CNT * FREQ_HIGH / 10)
    by run_code.
  destruct (threshold_is_high_range s Hg Hc) as [Hl Hd].
  split; [exact Hg |]. split; [exact Hc |].
  split; [exact Hl | exact Hd].
Defined.

(** C8, as the code has it: at the full-scale count
    [256 * FREQ_CNT * FREQ_HIGH] the range LED is set and the published
    duty is 0, the quotient 256 cut to eight bits. *)
Theorem full_scale_duty (s : mcu) :
  closes_gate s ->
  effective_count s = 256 * FREQ_CNT * FREQ_HIGH ->
  pin LED_PORT 1 (isr s) = true /\ pwm_dc (isr s) = 0.
Proof.
  change (256 * FREQ_CNT * FREQ_HIGH) with 1024000.
  intros Hg Hc.
  assert (Hge : 102400 <= effective_count s) by lia.
  destruct (isr_closure_high s Hg Hge) as [Hd Hl].
  split; [exact Hl |]. rewrite Hd, Hc. reflexivity.
Qed.

Lemma full_scale_duty_witness :
  let s := closing 15 40960 in
  closes_gate s /\ effective_count s = 1024000 /\
  pin LED_PORT 1 (isr s) = true /\ pwm_dc (isr s) = 0.
Proof.
  intros s.
  assert (Hg : closes_gate s) by (split; run_code).
  assert (Hc : effective_count s = 256 * FREQ_CNT * FREQ_HIGH) by run_code.
  destruct (full_scale_duty s Hg Hc) as [Hl Hd].
  split; [exact Hg |]. split; [exact Hc |].
  split; [exact Hl | exact Hd].
Defined.

(** C8, as stated, fails: at the full-scale count the published duty is
    not within 254 of 255, let alone near it. *)
Lemma full_scale_duty_not_near_255 :
  let s := closing 15 40960 in
  closes_gate s /\
  effective_count s = 256 * FREQ_CNT * FREQ_HIGH /\
  ~ near_full_duty 254 (pwm_dc (isr s)).
Proof.
  intros s.
  split; [split; run_code |].
  split; [run_code |].
  unfold near_full_duty. vm_compute. intros [H _]. apply H. reflexivity.
Qed.

(** The top duty 255 is published for the last [FREQ_CNT * FREQ_HIGH]
    counts below full scale. *)
Lemma just_below_full_scale_duty (s : mcu) :
  closes_gate s ->
  255 * (FREQ_CNT * FREQ_HIGH) <= effective_count s < 256 * FREQ_CNT * FREQ_HIGH ->
  pin LED_PORT 1 (isr s) = true /\ pwm_dc (isr s) = 255.
Proof.
  change (256 * FREQ_CNT * FREQ_HIGH) with 1024000.
  change (FREQ_CNT * FREQ_HIGH) with 4000.
  intros Hg Hc.
  assert (Hge : 102400 <= effective_count s) by lia.
  destruct (isr_closure_high s Hg Hge) as [Hd Hl].
  split; [exact Hl |]. rewrite Hd.
  assert (Hq : effective_count s / 4000 = 255).
  { symmetry. apply (Z.div_unique _ _ _ (effective_count s - 255 * 4000)); lia. }
  rewrite Hq. reflexivity.
Qed.

(** C9: when the quotient [c / (FREQ_CNT * FREQ_HIGH)] is 256 or more, the
    published duty is that quotient modulo [2 ^ 8]: nothing clamps it, so
    it differs from the quotient, and the range LED is still set. *)
Theorem over_range_duty_wraps (s : mcu) :
  256 <= effective_count s / (FREQ_CNT * FREQ_HIGH) ->
  closes_gate s ->
  pwm_dc (isr s) = (effective_count s / (FREQ_CNT * FREQ_HIGH)) mod 2 ^ 8 /\
  pwm_dc (isr s) <> effective_count s / (FREQ_CNT * FREQ_HIGH) /\
  pin LED_PORT 1 (isr s) = true.
Proof.
  change (FREQ_CNT * FREQ_HIGH) with 4000.
  intros Hq Hg.
  assert (Hge : 102400 <= effective_count s).
  { destruct (Z_lt_le_dec (effective_count s) 102400) as [Hlt | Hle]; [| exact Hle].
    assert (effective_count s / 4000 < 256)
      by (apply Z.div_lt_upper_bound; lia).
    lia. }
  destruct (isr_closure_high s Hg Hge) as [Hd Hl].
  repeat split; [exact Hd | | exact Hl].
  rewrite Hd. pose proof (u8_range (effective_count s / 4000)). lia.
Qed.

Lemma over_range_duty_wraps_witness :
  let s := closing 16 3424 in
  effective_count s / (FREQ_CNT * FREQ_HIGH) = 263 /\
  closes_gate s /\
  pwm_dc (isr s) = 7 /\ pin LED_PORT 1 (isr s) = true.
Proof.
  intros s.
  assert (Hq : 256 <= effective_count s / (FREQ_CNT * FREQ_HIGH))
    by (vm_compute; discriminate).
  assert (Hg : closes_gate s) by (split; run_code).
  destruct (over_range_duty_wraps s Hq Hg) as [Hd [_ Hl]].
  split; [run_code |]. split; [exact Hg |].
  split; [exact Hd | exact Hl].
Defined.

(** * The output generator *)

(** C7: after one pass of the output loop the PWM pin is high exactly when
    the counter TMR0 does not exceed [pwm_dc], low when it strictly exceeds
    it, for every pair of values. *)
Theorem pwm_pin_follows_compare (s : mcu) :
  pin PWM_PORT 0 (pwm_output s) = (sfr s PWM_CNT <=? pwm_dc s).
Proof.
  unfold pwm_output.
  destruct (Z.gtb_spec (sfr s PWM_CNT) (pwm_dc s)) as [Hgt | Hle].
  - rewrite (IO_CLR_GPIO_pin 0) by lia. symmetry. apply Z.leb_gt. lia.
  - rewrite (IO_SET_GPIO_pin 0) by lia. symmetry. apply Z.leb_le. exact Hle.
Qed.


(** * The gate timer *)

Lemma tick_prologue_freq_cnt s :
  freq_cnt (tick_prologue s) = u8 (freq_cnt s - 1).
Proof. reflexivity. Qed.

Lemma closes_gate_iff s :
  0 <= freq_cnt s < 256 ->
  closes_gate s <-> flag s T0IF = true /\ freq_cnt s = 1.
Proof.
  intros Hr. unfold closes_gate. rewrite tick_prologue_freq_cnt. unfold u8.
  change (2 ^ 8) with 256.
  split; intros [Hf Hc]; (split; [exact Hf |]).
  - destruct (Z.eq_dec (freq_cnt s) 0) as [H0 | H0].
    + rewrite H0 in Hc. discriminate Hc.
    + rewrite Z.mod_small in Hc by lia. lia.
  - rewrite Hc. reflexivity.
Qed.

(** The timer-tick handler keeps the downcounter in [1, FREQ_CNT]. *)
Lemma tmr0_isr_freq_cnt_range s :
  1 <= freq_cnt s <= FREQ_CNT -> 1 <= freq_cnt (tmr0_isr s) <= FREQ_CNT.
Proof.
  unfold FREQ_CNT. intros Hr. unfold tmr0_isr.
  destruct (flag s T0IF); [| exact Hr]. cbv zeta.
  rewrite tick_prologue_freq_cnt, u8_small by lia.
  destruct (Z.eqb_spec (freq_cnt s - 1) 0) as [Hz | Hnz].
  - destruct (gate_latch (tick_prologue s)) as [freq10 s'] eqn:Hl.
    rewrite freq2pwm_freq_cnt.
    unfold gate_latch in Hl. injection Hl as _ <-. simpl. vm_compute.
    split; discriminate.
  - rewrite tick_prologue_freq_cnt, u8_small by lia. lia.
Qed.

Lemma pwm_output_freq_cnt s : freq_cnt (pwm_output s) = freq_cnt s.
Proof. unfold pwm_output. destruct (_ >? _); reflexivity. Qed.

Lemma pwm_output_freq s : freq (pwm_output s) = freq s.
Proof. unfold pwm_output. destruct (_ >? _); reflexivity. Qed.

Lemma reachable_freq_cnt s : reachable s -> 1 <= freq_cnt s <= FREQ_CNT.
Proof.
  induction 1 as [s0 H0 | s e Hs IH | s t Hs IH].
  - vm_compute. split; discriminate.
  - unfold irq, isr. rewrite tmr1_isr_freq_cnt.
    apply tmr0_isr_freq_cnt_range. exact IH.
  - rewrite pwm_output_freq_cnt. exact IH.
Qed.

Lemma reachable_run es : forall s, reachable s -> reachable (run es s).
Proof.
  induction es as [| e es IH]; intros s Hs; [exact Hs |].
  apply (IH (irq e s)). apply reach_irq. exact Hs.
Qed.

Lemma reachable_closing n r : reachable (isr (closing n r)).
Proof.
  unfold closing.
  apply (reach_irq
           (run (repeat overflow_ev n ++ repeat tick_ev 199)
                (ei (freq_init power_on)))
           (HwEvent true false 0 r)).
  apply reachable_run. apply reach_boot. reflexivity.
Qed.

(** C5: a gate closure, that is the timer-tick handler finding the
    downcounter at zero after its decrement, leaves [freq] at exactly 0 and
    [freq_cnt] at exactly [FREQ_CNT], whatever [freq] and TMR1 held; the
    whole [isr] does the same when no counter overflow is pending. *)
Theorem gate_closure_resets (s : mcu) :
  closes_gate s ->
  freq (tmr0_isr s) = 0 /\ freq_cnt (tmr0_isr s) = FREQ_CNT /\
  (flag s TMR1IF = false -> freq (isr s) = 0 /\ freq_cnt (isr s) = FREQ_CNT).
Proof.
  intros Hg.
  assert (Ht : freq (tmr0_isr s) = 0 /\ freq_cnt (tmr0_isr s) = FREQ_CNT).
  { rewrite (tmr0_isr_closure s Hg), freq2pwm_freq, freq2pwm_freq_cnt.
    split; reflexivity. }
  destruct Ht as [Hf Hc]. split; [exact Hf |]. split; [exact Hc |].
  intros Ho. unfold isr, tmr1_isr.
  assert (Hk : flag (tmr0_isr s) TMR1IF = false).
  { rewrite (tmr0_isr_closure s Hg). unfold freq2pwm.
    destruct (_ >=? _); exact Ho. }
  rewrite Hk. split; [exact Hf | exact Hc].
Qed.

Lemma gate_closure_resets_witness :
  let s := closing 3 12345 in
  closes_gate s /\ freq s = 3 * 65536 /\ sfr s TMR1 = 12345 /\
  freq (tmr0_isr s) = 0 /\ freq_cnt (tmr0_isr s) = FREQ_CNT.
Proof.
  intros s.
  assert (Hg : closes_gate s) by (split; run_code).
  destruct (gate_closure_resets s Hg) as [Hf [Hc _]].
  split; [exact Hg |]. split; [run_code |]. split; [run_code |].
  split; [exact Hf | exact Hc].
Defined.

(** C6: [freq_init] leaves the downcounter at [FREQ_CNT]; a timer-tick
    handler entered with the downcounter in [1, FREQ_CNT] leaves it in
    [1, FREQ_CNT], reloading it when the decrement reaches zero; hence the
    downcounter of the running program is always in [0, FREQ_CNT]. *)
Theorem downcounter_in_range :
  (forall s0, freq_cnt (freq_init s0) = FREQ_CNT) /\
  (forall s, 1 <= freq_cnt s <= FREQ_CNT ->
             freq_cnt (tick_prologue s) = freq_cnt s - 1) /\
  (forall s, 1 <= freq_cnt s <= FREQ_CNT ->
             1 <= freq_cnt (tmr0_isr s) <= FREQ_CNT) /\
  (forall s, closes_gate s -> freq_cnt (tmr0_isr s) = FREQ_CNT) /\
  (forall s, reachable s -> 0 <= freq_cnt s <= FREQ_CNT).
Proof.
  split; [intros s0; reflexivity |].
  split.
  { intros s Hr. unfold FREQ_CNT in Hr.
    rewrite tick_prologue_freq_cnt. apply u8_small. lia. }
  split; [exact tmr0_isr_freq_cnt_range |].
  split.
  - intros s Hg. rewrite (tmr0_isr_closure s Hg), freq2pwm_freq_cnt.
    reflexivity.
  - intros s Hs. pose proof (reachable_freq_cnt s Hs). lia.
Qed.

Lemma downcounter_in_range_witness :
  let s := closing 0 0 in
  1 <= freq_cnt s <= FREQ_CNT /\ reachable (isr s) /\
  1 <= freq_cnt (tmr0_isr s) <= FREQ_CNT /\
  0 <= freq_cnt (isr s) <= FREQ_CNT.
Proof.
  intros s.
  destruct downcounter_in_range as [_ [_ [Hstep [_ Hreach]]]].
  assert (Hr : 1 <= freq_cnt s <= FREQ_CNT) by (vm_compute; split; discriminate).
  assert (Hs : reachable (isr s)) by apply reachable_closing.
  split; [exact Hr |]. split; [exact Hs |].
  split; [apply Hstep; exact Hr | apply Hreach; exact Hs].
Defined.


(** * The pulse counter and its software extension *)

Lemma ticks_cons e es :
  ticks (e :: es) = (if ev_t0if e then 1 else 0) + ticks es.
Proof.
  unfold ticks. simpl filter. destruct (ev_t0if e); [| lia].
  simpl length. lia.
Qed.

Lemma overflows_cons e es :
  overflows (e :: es) = (if ev_tmr1if e then 1 else 0) + overflows es.
Proof.
  unfold overflows. simpl filter. destruct (ev_tmr1if e); [| lia].
  simpl length. lia.
Qed.

Lemma ticks_app es1 es2 : ticks (es1 ++ es2) = ticks es1 + ticks es2.
Proof. unfold ticks. rewrite filter_app, length_app. lia. Qed.

Lemma overflows_app es1 es2 :
  overflows (es1 ++ es2) = overflows es1 + overflows es2.
Proof. unfold overflows. rewrite filter_app, length_app. lia. Qed.

Lemma ticks_repeat e n :
  ticks (repeat e n) = if ev_t0if e then Z.of_nat n else 0.
Proof.
  induction n as [| n IH]; [destruct (ev_t0if e); reflexivity |].
  cbn [repeat]. rewrite ticks_cons, IH. destruct (ev_t0if e); lia.
Qed.

Lemma overflows_repeat e n :
  overflows (repeat e n) = if ev_tmr1if e then Z.of_nat n else 0.
Proof.
  induction n as [| n IH]; [destruct (ev_tmr1if e); reflexivity |].
  cbn [repeat]. rewrite overflows_cons, IH. destruct (ev_tmr1if e); lia.
Qed.

Lemma ticks_nonneg es : 0 <= ticks es.
Proof. unfold ticks. lia. Qed.

Lemma overflows_nonneg es : 0 <= overflows es.
Proof. unfold overflows. lia. Qed.

Lemma freq2pwm_flag c s b : flag (freq2pwm c s) b = flag s b.
Proof. unfold freq2pwm. destruct (_ >=? _); reflexivity. Qed.

Lemma tmr0_isr_idle s : flag s T0IF = false -> tmr0_isr s = s.
Proof. intros H. unfold tmr0_isr. rewrite H. reflexivity. Qed.

Lemma tmr0_isr_open s :
  flag s T0IF = true -> freq_cnt (tick_prologue s) <> 0 ->
  tmr0_isr s = tick_prologue s.
Proof.
  intros H Hnz. unfold tmr0_isr. rewrite H. cbv zeta.
  destruct (Z.eqb_spec (freq_cnt (tick_prologue s)) 0) as [Hz | _];
    [contradiction | reflexivity].
Qed.

Lemma tmr0_isr_flag s b :
  flag (tmr0_isr s) b = if sfr_bit_beq b T0IF then false else flag s b.
Proof.
  destruct (flag s T0IF) eqn:H.
  - destruct (Z.eq_dec (freq_cnt (tick_prologue s)) 0) as [Hz | Hnz].
    + rewrite (tmr0_isr_closure s (conj H Hz)), freq2pwm_flag. reflexivity.
    + rewrite (tmr0_isr_open s H Hnz). reflexivity.
  - rewrite (tmr0_isr_idle s H).
    destruct b; try reflexivity. exact H.
Qed.

Lemma tmr1_isr_flag s b :
  flag (tmr1_isr s) b = if sfr_bit_beq b TMR1IF then false else flag s b.
Proof.
  unfold tmr1_isr. destruct (flag s TMR1IF) eqn:H; [reflexivity |].
  destruct b; try reflexivity. exact H.
Qed.

Lemma tmr1_isr_freq s :
  freq (tmr1_isr s) = if flag s TMR1IF then u32 (freq s + 65536) else freq s.
Proof. unfold tmr1_isr. destruct (flag s TMR1IF); reflexivity. Qed.

(** Both interrupt flags are clear when [isr] returns. *)
Lemma isr_flags_clear s :
  flag (isr s) T0IF = false /\ flag (isr s) TMR1IF = false.
Proof.
  unfold isr. rewrite !tmr1_isr_flag, tmr0_isr_flag. split; reflexivity.
Qed.

(** An interrupt that does not close the gate: the tick, if any, is
    counted down and the overflow, if any, adds its quantum. *)
Lemma irq_open_gate e s :
  flag s T0IF = false -> flag s TMR1IF = false ->
  (if ev_t0if e then 2 else 1) <= freq_cnt s <= 255 ->
  freq (irq e s) = (if ev_tmr1if e then u32 (freq s + 65536) else freq s) /\
  freq_cnt (irq e s) = freq_cnt s - (if ev_t0if e then 1 else 0).
Proof.
  intros H0 H1 Hc. unfold irq, isr.
  rewrite tmr1_isr_freq, tmr1_isr_freq_cnt, tmr0_isr_flag.
  assert (Hf0 : flag (hw_raise e s) T0IF = ev_t0if e)
    by (cbn; rewrite H0; reflexivity).
  assert (Hf1 : flag (hw_raise e s) TMR1IF = ev_tmr1if e)
    by (cbn; rewrite H1; reflexivity).
  cbn [sfr_bit_beq]. rewrite Hf1.
  destruct (ev_t0if e) eqn:Ht.
  - assert (Hnz : freq_cnt (tick_prologue (hw_raise e s)) <> 0).
    { rewrite tick_prologue_freq_cnt.
      change (freq_cnt (hw_raise e s)) with (freq_cnt s).
      rewrite u8_small by lia. lia. }
    rewrite (tmr0_isr_open _ Hf0 Hnz), tick_prologue_freq_cnt.
    change (freq_cnt (hw_raise e s)) with (freq_cnt s).
    change (freq (tick_prologue (hw_raise e s))) with (freq s).
    rewrite u8_small by lia. split; reflexivity.
  - rewrite (tmr0_isr_idle _ Hf0).
    change (freq_cnt (hw_raise e s)) with (freq_cnt s).
    change (freq (hw_raise e s)) with (freq s).
    split; [reflexivity | lia].
Qed.

(** A run of interrupts during which the gate stays open. *)
Lemma run_open_gate es : forall s,
  flag s T0IF = false -> flag s TMR1IF = false ->
  0 <= freq s < 4294967296 ->
  ticks es < freq_cnt s <= 255 ->
  freq (run es s) = u32 (freq s + 65536 * overflows es) /\
  freq_cnt (run es s) = freq_cnt s - ticks es /\
  flag (run es s) T0IF = false /\ flag (run es s) TMR1IF = false.
Proof.
  induction es as [| e es IH]; intros s H0 H1 Hf Hc.
  - change (ticks []) with 0. change (overflows []) with 0. cbn [run fold_left].
    rewrite Z.mul_0_r, Z.add_0_r, u32_small by exact Hf.
    split; [reflexivity |]. split; [lia |]. split; [exact H0 | exact H1].
  - rewrite ticks_cons in Hc. pose proof (ticks_nonneg es) as Hn.
    assert (Hc1 : (if ev_t0if e then 2 else 1) <= freq_cnt s <= 255)
      by (destruct (ev_t0if e); lia).
    destruct (irq_open_gate e s H0 H1 Hc1) as [Ef Ec].
    destruct (isr_flags_clear (hw_raise e s)) as [G0 G1].
    assert (Hf' : 0 <= freq (irq e s) < 4294967296).
    { rewrite Ef. destruct (ev_tmr1if e); [apply u32_range | exact Hf]. }
    assert (Hc' : ticks es < freq_cnt (irq e s) <= 255)
      by (rewrite Ec; destruct (ev_t0if e); lia).
    destruct (IH (irq e s) G0 G1 Hf' Hc') as [If [Ic [I0 I1]]].
    change (run (e :: es) s) with (run es (irq e s)).
    rewrite If, Ic, Ef, Ec, ticks_cons, overflows_cons.
    split; [| split; [lia | split; [exact I0 | exact I1]]].
    destruct (ev_tmr1if e).
    + unfold u32. rewrite Z.add_mod_idemp_l by discriminate.
      f_equal; lia.
    + f_equal; lia.
Qed.

(** OR-ing a 16-bit value into a multiple of 65536 adds it. *)
Lemma land_low16 a b : a mod 2 ^ 16 = 0 -> 0 <= b < 2 ^ 16 -> Z.land a b = 0.
Proof.
  intros Ha Hb. rewrite <- (Z.mod_small b (2 ^ 16)) by exact Hb.
  rewrite <- Z.land_ones in Ha by lia. rewrite <- Z.land_ones by lia.
  rewrite Z.land_assoc, (Z.land_comm a b), <- Z.land_assoc, Ha.
  apply Z.land_0_r.
Qed.

Lemma lor_low16 a b : a mod 2 ^ 16 = 0 -> 0 <= b < 2 ^ 16 -> Z.lor a b = a + b.
Proof.
  intros Ha Hb. pose proof (Z.add_lor_land a b) as H.
  rewrite (land_low16 a b Ha Hb) in H. lia.
Qed.

Lemma u32_low16 z : u32 z mod 2 ^ 16 = z mod 2 ^ 16.
Proof.
  unfold u32. change (2 ^ 32) with (2 ^ 16 * 2 ^ 16).
  rewrite Z.rem_mul_r by lia.
  rewrite (Z.mul_comm (2 ^ 16) ((z / 2 ^ 16) mod 2 ^ 16)), Z.mod_add by lia.
  apply Z.mod_mod. lia.
Qed.

Lemma acc_sum_fits f t :
  0 <= f < 2 ^ 32 -> f mod 2 ^ 16 = 0 -> 0 <= t < 2 ^ 16 ->
  0 <= f + t < 2 ^ 32.
Proof.
  change (2 ^ 32) with 4294967296. change (2 ^ 16) with 65536.
  intros Hf Hm Ht.
  pose proof (Z.div_mod f 65536 ltac:(lia)) as Hd.
  rewrite Hm in Hd. lia.
Qed.

Lemma tmr0_isr_closure_freq s : closes_gate s -> freq (tmr0_isr s) = 0.
Proof.
  intros Hg. rewrite (tmr0_isr_closure s Hg), freq2pwm_freq. reflexivity.
Qed.

Lemma tmr0_isr_acc_ok s : acc_ok s -> acc_ok (tmr0_isr s).
Proof.
  intros Hs. destruct (flag s T0IF) eqn:H.
  - destruct (Z.eq_dec (freq_cnt (tick_prologue s)) 0) as [Hz | Hnz].
    + unfold acc_ok. rewrite (tmr0_isr_closure_freq s (conj H Hz)).
      split; [split; [discriminate | reflexivity] | reflexivity].
    + rewrite (tmr0_isr_open s H Hnz). exact Hs.
  - rewrite (tmr0_isr_idle s H). exact Hs.
Qed.

Lemma tmr1_isr_acc_ok s : acc_ok s -> acc_ok (tmr1_isr s).
Proof.
  intros [Hr Hm]. unfold acc_ok. rewrite tmr1_isr_freq.
  destruct (flag s TMR1IF); [| split; assumption].
  split; [apply u32_range |].
  rewrite u32_low16. change 65536 with (1 * 2 ^ 16).
  rewrite Z.mod_add by lia. exact Hm.
Qed.

Lemma reachable_acc_ok s : reachable s -> acc_ok s.
Proof.
  induction 1 as [s0 H0 | s e Hs IH | s t Hs IH].
  - unfold acc_ok. change (freq (ei (freq_init s0))) with (freq s0).
    rewrite H0. split; [split; [discriminate | reflexivity] | reflexivity].
  - unfold irq, isr. apply tmr1_isr_acc_ok, tmr0_isr_acc_ok. exact IH.
  - unfold acc_ok. rewrite pwm_output_freq. exact IH.
Qed.

Lemma hw_raise_tmr1_range e s : 0 <= sfr (hw_raise e s) TMR1 < 2 ^ 16.
Proof. apply u16_range. Qed.

Lemma latch_adds s :
  acc_ok s -> 0 <= sfr s TMR1 < 2 ^ 16 ->
  Z.lor (freq s) (sfr s TMR1) = freq s + sfr s TMR1 /\
  fst (gate_latch s) = freq s + sfr s TMR1.
Proof.
  intros [Hr Hm] Ht.
  assert (Hl : Z.lor (freq s) (sfr s TMR1) = freq s + sfr s TMR1)
    by (apply lor_low16; assumption).
  split; [exact Hl |].
  change (fst (gate_latch s)) with (u32 (Z.lor (freq s) (sfr s TMR1))).
  rewrite Hl. apply Z.mod_small. apply acc_sum_fits; assumption.
Qed.

(** C10: whenever the gate-closure latch can execute, that is after the
    prologue of the timer-tick handler in an interrupt taken by the running
    program, the low 16 bits of [freq] are zero, so [freq |= TMR1] computes
    [freq + TMR1], and that sum is the latched count. *)
Theorem latch_or_is_add (s : mcu) (e : hw_event) :
  reachable s ->
  let s1 := tick_prologue (hw_raise e s) in
  Z.land (freq s1) (2 ^ 16 - 1) = 0 /\
  Z.lor (freq s1) (sfr s1 TMR1) = freq s1 + sfr s1 TMR1 /\
  fst (gate_latch s1) = freq s1 + sfr s1 TMR1.
Proof.
  intros Hs s1.
  assert (Ha : acc_ok s1) by (apply (reachable_acc_ok s Hs)).
  assert (Ht : 0 <= sfr s1 TMR1 < 2 ^ 16) by (apply (hw_raise_tmr1_range e s)).
  split; [| apply latch_adds; assumption].
  destruct Ha as [_ Hm]. change (2 ^ 16 - 1) with (Z.ones 16).
  rewrite Z.land_ones by lia. exact Hm.
Qed.

Lemma latch_or_is_add_witness :
  let s := run (repeat overflow_ev 3 ++ repeat tick_ev 199)
               (ei (freq_init power_on)) in
  let s1 := tick_prologue (hw_raise (HwEvent true false 0 12345) s) in
  reachable s /\ freq s1 = 3 * 65536 /\ sfr s1 TMR1 = 12345 /\
  Z.lor (freq s1) (sfr s1 TMR1) = freq s1 + sfr s1 TMR1.
Proof.
  intros s s1.
  assert (Hs : reachable s)
    by (apply reachable_run, reach_boot; reflexivity).
  destruct (latch_or_is_add s (HwEvent true false 0 12345) Hs) as [_ [Hl _]].
  split; [exact Hs |]. split; [run_code |]. split; [run_code | exact Hl].
Defined.

(** The count latched at the end of a gate window in which [k] overflow
    quanta were already accumulated before the interrupts [es]. *)
Lemma gate_window_count
    (s : mcu) (es : list hw_event) (o : bool) (z0 r k : Z) :
  flag s T0IF = false -> flag s TMR1IF = false ->
  0 <= k ->
  freq s = u32 (k * 2 ^ 16) ->
  1 <= freq_cnt s <= FREQ_CNT ->
  ticks es = freq_cnt s - 1 ->
  0 <= r < 2 ^ 16 ->
  let n := k + overflows es in
  let s1 := hw_raise (HwEvent true o z0 r) (run es s) in
  closes_gate s1 /\
  tmr0_isr s1 =
    freq2pwm (effective_count s1) (snd (gate_latch (tick_prologue s1))) /\
  effective_count s1 = (n * 2 ^ 16 + r) mod 2 ^ 32 /\
  (n < 2 ^ 16 -> effective_count s1 = n * 2 ^ 16 + r).
Proof.
  intros H0 H1 Hk Hf Hc Ht Hr n s1. unfold FREQ_CNT in Hc.
  assert (Hf' : 0 <= freq s < 4294967296) by (rewrite Hf; apply u32_range).
  assert (Hc' : ticks es < freq_cnt s <= 255) by lia.
  destruct (run_open_gate es s H0 H1 Hf' Hc') as [Rf [Rc [R0 R1]]].
  assert (Rn : freq (run es s) = u32 (n * 2 ^ 16)).
  { rewrite Rf, Hf. unfold u32. rewrite Z.add_mod_idemp_l by lia.
    f_equal. unfold n. change (2 ^ 16) with 65536. lia. }
  assert (Hg : closes_gate s1).
  { split.
    - change (flag s1 T0IF) with (flag (run es s) T0IF || true)%bool.
      apply orb_true_r.
    - rewrite tick_prologue_freq_cnt.
      change (freq_cnt s1) with (freq_cnt (run es s)).
      rewrite Rc, Ht. replace (freq_cnt s - (freq_cnt s - 1) - 1) with 0 by lia.
      reflexivity. }
  assert (He : effective_count s1 = (n * 2 ^ 16 + r) mod 2 ^ 32).
  { rewrite effective_count_eq.
    change (freq s1) with (freq (run es s)).
    change (sfr s1 TMR1) with (u16 r).
    unfold u16. rewrite (Z.mod_small r) by exact Hr. rewrite Rn.
    rewrite lor_low16; [| | exact Hr].
    - unfold u32. rewrite Z.add_mod_idemp_l by lia. reflexivity.
    - rewrite u32_low16. apply Z.mod_mul. lia. }
  split; [exact Hg |]. split; [apply tmr0_isr_closure; exact Hg |].
  split; [exact He |].
  intros Hn. rewrite He. apply Z.mod_small.
  pose proof (overflows_nonneg es). unfold n in *.
  change (2 ^ 16) with 65536 in *. change (2 ^ 32) with 4294967296. lia.
Qed.

(** The state in which [isr] returns from a gate closure: flags clear, the
    downcounter reloaded, and in [freq] only the quantum of an overflow that
    was pending at the closure. *)
Lemma isr_after_closure s0 :
  closes_gate s0 ->
  flag (isr s0) T0IF = false /\ flag (isr s0) TMR1IF = false /\
  freq (isr s0) = u32 ((if flag s0 TMR1IF then 1 else 0) * 2 ^ 16) /\
  freq_cnt (isr s0) = FREQ_CNT.
Proof.
  intros Hg. destruct (isr_flags_clear s0) as [G0 G1].
  split; [exact G0 |]. split; [exact G1 |]. unfold isr.
  rewrite tmr1_isr_freq, tmr1_isr_freq_cnt, tmr0_isr_flag.
  rewrite (tmr0_isr_closure_freq s0 Hg). cbn [sfr_bit_beq].
  split; [destruct (flag s0 TMR1IF); reflexivity |].
  rewrite (tmr0_isr_closure s0 Hg), freq2pwm_freq_cnt. reflexivity.
Qed.

(** C4.  Let [s0] be the state in which the last gate closure was taken,
    [es] the interrupts served since, and [n] the number of
    overflow-handler firings since that closure: those of [es], and the one
    served right after the closure when an overflow was pending there.
    With [n] within the range of the 32-bit accumulator, [n < 65536], as it
    is in every window the meter can see (a window lasts 409,600
    instruction cycles), the next closing tick, with [r] in TMR1, hands the
    classifier the count [n * 65536 + r].  An overflow flagged together
    with that closing tick ([o]) is served after the latch and is not part
    of this count. *)
Theorem overflow_accumulation
    (s0 : mcu) (es : list hw_event) (o : bool) (z0 r : Z) :
  closes_gate s0 ->
  ticks es = FREQ_CNT - 1 ->
  0 <= r < 2 ^ 16 ->
  let n := (if flag s0 TMR1IF then 1 else 0) + overflows es in
  n < 2 ^ 16 ->
  let s1 := hw_raise (HwEvent true o z0 r) (run es (isr s0)) in
  closes_gate s1 /\
  tmr0_isr s1 =
    freq2pwm (effective_count s1) (snd (gate_latch (tick_prologue s1))) /\
  effective_count s1 = n * 2 ^ 16 + r.
Proof.
  intros Hg Ht Hr n Hn s1.
  destruct (isr_after_closure s0 Hg) as [G0 [G1 [Gf Gc]]].
  assert (Hk : 0 <= (if flag s0 TMR1IF then 1 else 0))
    by (destruct (flag s0 TMR1IF); lia).
  assert (Hc : 1 <= freq_cnt (isr s0) <= FREQ_CNT)
    by (rewrite Gc; unfold FREQ_CNT; lia).
  assert (Ht' : ticks es = freq_cnt (isr s0) - 1) by (rewrite Gc; exact Ht).
  destruct (gate_window_count (isr s0) es o z0 r _ G0 G1 Hk Gf Hc Ht' Hr)
    as [Hg1 [Hp [_ He]]].
  split; [exact Hg1 |]. split; [exact Hp |]. exact (He Hn).
Qed.

Lemma overflow_accumulation_witness :
  let s0 := closing 7 100 in
  let es := repeat overflow_ev 3 ++ repeat tick_ev 199 in
  let s1 := hw_raise (HwEvent true false 0 12345) (run es (isr s0)) in
  closes_gate s0 /\ flag s0 TMR1IF = false /\ overflows es = 3 /\
  closes_gate s1 /\ effective_count s1 = 3 * 65536 + 12345.
Proof.
  intros s0 es s1.
  assert (Hg0 : closes_gate s0) by (split; run_code).
  assert (Ht : ticks es = FREQ_CNT - 1) by run_code.
  assert (Hr : 0 <= 12345 < 2 ^ 16) by (split; run_code).
  assert (Hp : flag s0 TMR1IF = false) by run_code.
  assert (Ho : overflows es = 3) by run_code.
  destruct (overflow_accumulation s0 es false 0 12345 Hg0 Ht Hr)
    as [Hg [_ He]]; [run_code |].
  split; [exact Hg0 |]. split; [exact Hp |]. split; [exact Ho |].
  split; [exact Hg |]. etransitivity; [exact He | run_code].
Defined.

(** The first gate window, opened by [freq_init] rather than by a gate
    closure, counts the same way. *)
Lemma first_window_count
    (s0 : mcu) (es : list hw_event) (o : bool) (z0 r : Z) :
  freq s0 = 0 ->
  ticks es = FREQ_CNT - 1 ->
  0 <= r < 2 ^ 16 ->
  overflows es < 2 ^ 16 ->
  effective_count (hw_raise (HwEvent true o z0 r) (run es (ei (freq_init s0))))
  = overflows es * 2 ^ 16 + r.
Proof.
  intros Hf Ht Hr Hn.
  assert (Hz : freq (ei (freq_init s0)) = u32 (0 * 2 ^ 16)).
  { change (freq (ei (freq_init s0))) with (freq s0). rewrite Hf. reflexivity. }
  assert (Hc : 1 <= freq_cnt (ei (freq_init s0)) <= FREQ_CNT)
    by (vm_compute; split; discriminate).
  apply (gate_window_count (ei (freq_init s0)) es o z0 r 0
           eq_refl eq_refl (Z.le_refl 0) Hz Hc Ht Hr).
  exact Hn.
Qed.


(** * What the handlers leave alone *)

Lemma testbit_pin_mask n m :
  0 <= m -> Z.testbit (Z.shiftl 1 n) m = (m =? n).
Proof.
  intros Hm. rewrite Z.shiftl_spec by exact Hm.
  destruct (Z.eqb_spec m n) as [-> | Hne].
  - rewrite Z.sub_diag. reflexivity.
  - destruct (Z_lt_le_dec (m - n) 0) as [Hlt | Hge].
    + apply Z.testbit_neg_r. exact Hlt.
    + apply Z.bits_above_log2; [lia | simpl; lia].
Qed.

Lemma IO_SET_GPIO_other n m s :
  0 <= m < 8 -> m <> n -> pin GPIO m (IO_SET GPIO (Z.shiftl 1 n) s) = pin GPIO m s.
Proof.
  intros Hm Hne. unfold pin, IO_SET. simpl. unfold u8.
  rewrite Z.mod_pow2_bits_low by lia.
  rewrite Z.lor_spec, testbit_pin_mask by lia.
  destruct (Z.eqb_spec m n) as [He | _]; [contradiction | apply orb_false_r].
Qed.

Lemma IO_CLR_GPIO_other n m s :
  0 <= m < 8 -> m <> n -> pin GPIO m (IO_CLR GPIO (Z.shiftl 1 n) s) = pin GPIO m s.
Proof.
  intros Hm Hne. unfold pin, IO_CLR. simpl. unfold u8.
  rewrite Z.mod_pow2_bits_low by lia.
  rewrite Z.land_spec, Z.lnot_spec, testbit_pin_mask by lia.
  destruct (Z.eqb_spec m n) as [He | _]; [contradiction | apply andb_true_r].
Qed.

Lemma freq2pwm_sfr c s r : r <> GPIO -> sfr (freq2pwm c s) r = sfr s r.
Proof.
  intros Hr. unfold freq2pwm.
  destruct (_ >=? _); destruct r; try reflexivity; contradiction.
Qed.

Lemma freq2pwm_other_pin c s m :
  0 <= m < 8 -> m <> 1 -> pin GPIO m (freq2pwm c s) = pin GPIO m s.
Proof.
  intros Hm Hne. unfold freq2pwm. destruct (_ >=? _); cbv zeta.
  - rewrite (IO_SET_GPIO_other 1) by assumption. reflexivity.
  - rewrite (IO_CLR_GPIO_other 1) by assumption. reflexivity.
Qed.

Lemma gate_latch_sfr s r :
  sfr (snd (gate_latch s)) r = if sfr_reg_beq r TMR1 then 0 else sfr s r.
Proof. destruct r; reflexivity. Qed.

(** Registers across the timer-tick block: TMR1 is zeroed by a closure and
    nothing but the LED pin of GPIO is written. *)
Lemma tmr0_isr_sfr s r :
  r <> GPIO ->
  sfr (tmr0_isr s) r =
  if sfr_reg_beq r TMR1 then (if flag s T0IF then
                                if freq_cnt (tick_prologue s) =? 0 then 0
                                else sfr s r
                              else sfr s r)
  else sfr s r.
Proof.
  intros Hr. destruct (flag s T0IF) eqn:H.
  - destruct (Z.eqb_spec (freq_cnt (tick_prologue s)) 0) as [Hz | Hnz].
    + rewrite (tmr0_isr_closure s (conj H Hz)), freq2pwm_sfr by exact Hr.
      destruct r; reflexivity.
    + rewrite (tmr0_isr_open s H Hnz). destruct r; reflexivity.
  - rewrite (tmr0_isr_idle s H). destruct r; reflexivity.
Qed.

Lemma tmr0_isr_other_pin s m :
  0 <= m < 8 -> m <> 1 -> pin GPIO m (tmr0_isr s) = pin GPIO m s.
Proof.
  intros Hm Hne. destruct (flag s T0IF) eqn:H.
  - destruct (Z.eq_dec (freq_cnt (tick_prologue s)) 0) as [Hz | Hnz].
    + rewrite (tmr0_isr_closure s (conj H Hz)).
      rewrite freq2pwm_other_pin by assumption. reflexivity.
    + rewrite (tmr0_isr_open s H Hnz). reflexivity.
  - rewrite (tmr0_isr_idle s H). reflexivity.
Qed.

(** X1: whatever the entry state, [isr] returns with T0IF and TMR1IF clear
    and with every other control bit (interrupt enables, prescaler and
    timer configuration) as it found it. *)
Theorem isr_flag_effect (s : mcu) (b : sfr_bit) :
  flag (isr s) b =
  match b with
  | T0IF | TMR1IF => false
  | _ => flag s b
  end.
Proof.
  unfold isr. rewrite tmr1_isr_flag, tmr0_isr_flag. destruct b; reflexivity.
Qed.

(** X2: [isr] never writes TMR0 or TRISIO, and of the GPIO pins it can
    change only the LED pin: every other pin, the PWM pin among them, keeps
    its level. *)
Theorem isr_register_frame (s : mcu) (n : Z) :
  0 <= n < 8 -> n <> 1 ->
  sfr (isr s) TMR0 = sfr s TMR0 /\
  sfr (isr s) TRISIO = sfr s TRISIO /\
  pin GPIO n (isr s) = pin GPIO n s.
Proof.
  intros Hn Hne. unfold isr.
  rewrite !tmr1_isr_sfr, tmr1_isr_pin.
  rewrite !tmr0_isr_sfr by discriminate.
  split; [reflexivity |]. split; [reflexivity |].
  apply tmr0_isr_other_pin; assumption.
Qed.

Lemma isr_register_frame_witness :
  let s := pwm_output (closing 1 36864) in
  closes_gate s /\ pin GPIO 1 s = false /\ pin GPIO 1 (isr s) = true /\
  pin GPIO 0 s = true /\ pin GPIO 0 (isr s) = pin GPIO 0 s.
Proof.
  intros s.
  assert (H0 : 0 <= 0 < 8) by (split; run_code).
  assert (H1 : 0 <> 1) by discriminate.
  destruct (isr_register_frame s 0 H0 H1) as [_ [_ Hp]].
  split; [split; run_code |]. split; [run_code |]. split; [run_code |].
  split; [run_code | exact Hp].
Defined.

(** X3: a pass of the output loop writes the PWM pin and nothing else: the
    three globals, every control bit, TMR0, TMR1 and TRISIO are unchanged
    and every GPIO pin other than the PWM pin, the LED pin among them,
    keeps its level. *)
Theorem pwm_output_frame (s : mcu) (n : Z) :
  1 <= n < 8 ->
  freq (pwm_output s) = freq s /\
  pwm_dc (pwm_output s) = pwm_dc s /\
  freq_cnt (pwm_output s) = freq_cnt s /\
  (forall b, flag (pwm_output s) b = flag s b) /\
  (forall r, r <> GPIO -> sfr (pwm_output s) r = sfr s r) /\
  pin GPIO n (pwm_output s) = pin GPIO n s.
Proof.
  intros Hn. unfold pwm_output. destruct (_ >? _).
  - repeat (split; [reflexivity |]).
    split; [intros r Hr; destruct r; try reflexivity; contradiction |].
    apply (IO_CLR_GPIO_other 0); lia.
  - repeat (split; [reflexivity |]).
    split; [intros r Hr; destruct r; try reflexivity; contradiction |].
    apply (IO_SET_GPIO_other 0); lia.
Qed.

Lemma pwm_output_frame_witness :
  let s := isr (closing 1 36864) in
  pin GPIO 1 s = true /\ pin GPIO 0 s = false /\
  pin GPIO 0 (pwm_output s) = true /\
  pin GPIO 1 (pwm_output s) = pin GPIO 1 s.
Proof.
  intros s.
  assert (H1 : 1 <= 1 < 8) by (split; run_code).
  destruct (pwm_output_frame s 1 H1) as [_ [_ [_ [_ [_ Hp]]]]].
  split; [run_code |]. split; [run_code |]. split; [run_code | exact Hp].
Defined.


(** * Between and at gate closures *)

Lemma not_closing_tick s :
  ~ closes_gate s -> flag s T0IF = true -> freq_cnt (tick_prologue s) <> 0.
Proof. intros Hn Hf Hz. apply Hn. split; assumption. Qed.

Lemma tmr0_isr_not_closing s :
  ~ closes_gate s ->
  tmr0_isr s = if flag s T0IF then tick_prologue s else s.
Proof.
  intros Hn. destruct (flag s T0IF) eqn:H.
  - apply tmr0_isr_open; [exact H | apply not_closing_tick; assumption].
  - apply tmr0_isr_idle. exact H.
Qed.

(** X4: an interrupt that does not close the gate publishes nothing: the
    duty cycle and every register are as before; the accumulator gains one
    quantum exactly when an overflow is pending and the downcounter loses
    one exactly when a tick is pending. *)
Theorem isr_between_closures (s : mcu) :
  ~ closes_gate s ->
  pwm_dc (isr s) = pwm_dc s /\
  (forall r, sfr (isr s) r = sfr s r) /\
  freq (isr s) = (if flag s TMR1IF then u32 (freq s + 0x10000) else freq s) /\
  freq_cnt (isr s) = (if flag s T0IF then u8 (freq_cnt s - 1) else freq_cnt s).
Proof.
  intros Hn. unfold isr.
  rewrite tmr1_isr_pwm_dc, tmr1_isr_freq, tmr1_isr_freq_cnt, tmr0_isr_flag.
  cbn [sfr_bit_beq].
  split; [| split; [intros r; rewrite tmr1_isr_sfr |]];
    rewrite (tmr0_isr_not_closing s Hn); destruct (flag s T0IF);
    try reflexivity.
  all: split; reflexivity.
Qed.

Lemma isr_between_closures_witness :
  let s := hw_raise (HwEvent true true 7 9) (ei (freq_init power_on)) in
  ~ closes_gate s /\
  pwm_dc (isr s) = 0 /\ sfr (isr s) TMR1 = 9 /\
  freq (isr s) = 65536 /\ freq_cnt (isr s) = 199.
Proof.
  intros s.
  assert (Hn : ~ closes_gate s)
    by (intros [_ Hz]; vm_compute in Hz; discriminate Hz).
  destruct (isr_between_closures s Hn) as [Hd [Hr [Hf Hc]]].
  split; [exact Hn |]. split; [exact Hd |].
  split; [exact (Hr TMR1) |]. split; [exact Hf | exact Hc].
Defined.

(** An interrupt that leaves the gate open leaves the outputs alone. *)
Lemma irq_open_outputs e s :
  flag s T0IF = false ->
  (if ev_t0if e then 2 else 1) <= freq_cnt s <= 255 ->
  pwm_dc (irq e s) = pwm_dc s /\
  sfr (irq e s) GPIO = sfr s GPIO /\ sfr (irq e s) TRISIO = sfr s TRISIO.
Proof.
  intros H0 Hc. unfold irq, isr.
  rewrite tmr1_isr_pwm_dc, !tmr1_isr_sfr.
  assert (Hf0 : flag (hw_raise e s) T0IF = ev_t0if e)
    by (cbn; rewrite H0; reflexivity).
  destruct (ev_t0if e) eqn:Ht.
  - assert (Hnz : freq_cnt (tick_prologue (hw_raise e s)) <> 0).
    { rewrite tick_prologue_freq_cnt.
      change (freq_cnt (hw_raise e s)) with (freq_cnt s).
      rewrite u8_small by lia. lia. }
    rewrite (tmr0_isr_open _ Hf0 Hnz). repeat split.
  - rewrite (tmr0_isr_idle _ Hf0). repeat split.
Qed.

Lemma run_open_gate_outputs es : forall s,
  flag s T0IF = false -> flag s TMR1IF = false ->
  ticks es < freq_cnt s <= 255 ->
  freq_cnt (run es s) = freq_cnt s - ticks es /\
  flag (run es s) T0IF = false /\ flag (run es s) TMR1IF = false /\
  pwm_dc (run es s) = pwm_dc s /\
  sfr (run es s) GPIO = sfr s GPIO /\ sfr (run es s) TRISIO = sfr s TRISIO.
Proof.
  induction es as [| e es IH]; intros s H0 H1 Hc.
  - change (ticks []) with 0. cbn [run fold_left].
    split; [lia |]. repeat split; assumption.
  - rewrite ticks_cons in Hc. pose proof (ticks_nonneg es) as Hn.
    assert (Hc1 : (if ev_t0if e then 2 else 1) <= freq_cnt s <= 255)
      by (destruct (ev_t0if e); lia).
    destruct (irq_open_gate e s H0 H1 Hc1) as [_ Ec].
    destruct (irq_open_outputs e s H0 Hc1) as [Ed [Eg Et]].
    destruct (isr_flags_clear (hw_raise e s)) as [G0 G1].
    assert (Hc' : ticks es < freq_cnt (irq e s) <= 255)
      by (rewrite Ec; destruct (ev_t0if e); lia).
    destruct (IH (irq e s) G0 G1 Hc') as [Ic [I0 [I1 [Id [Ig It]]]]].
    change (run (e :: es) s) with (run es (irq e s)).
    rewrite Ic, Id, Ig, It, Ec, Ed, Eg, Et, ticks_cons.
    split; [lia |]. repeat split; assumption.
Qed.

(** X5: while fewer timer ticks have been served than the downcounter
    holds, whatever else the interrupts bring, the published duty cycle,
    the GPIO port (LED and PWM pins) and TRISIO stay exactly as they were:
    the read-out only moves at a gate closure. *)
Theorem outputs_stable_within_window (s : mcu) (es : list hw_event) :
  flag s T0IF = false -> flag s TMR1IF = false ->
  ticks es < freq_cnt s <= 255 ->
  pwm_dc (run es s) = pwm_dc s /\
  sfr (run es s) GPIO = sfr s GPIO /\
  sfr (run es s) TRISIO = sfr s TRISIO.
Proof.
  intros H0 H1 Hc.
  destruct (run_open_gate_outputs es s H0 H1 Hc) as [_ [_ [_ H]]]. exact H.
Qed.

Lemma outputs_stable_within_window_witness :
  let s := isr (closing 1 36864) in
  let es := repeat overflow_ev 5 ++ repeat tick_ev 199 in
  pwm_dc s = 25 /\ pin GPIO 1 s = true /\ freq (run es s) = 5 * 65536 /\
  pwm_dc (run es s) = 25 /\ sfr (run es s) GPIO = sfr s GPIO.
Proof.
  intros s es.
  destruct (outputs_stable_within_window s es) as [Hd [Hg _]];
    [run_code | run_code | split; run_code |].
  split; [run_code |]. split; [run_code |]. split; [run_code |].
  split; [rewrite Hd; run_code | exact Hg].
Defined.

(** X6: the gate closes on exactly the tick that brings the downcounter to
    zero: after interrupts that served fewer ticks than the downcounter
    held, the next interrupt closes the gate if and only if it brings a
    tick and all but one of the ticks had been served. *)
Theorem gate_closes_on_last_tick (s : mcu) (es : list hw_event) (e : hw_event) :
  flag s T0IF = false -> flag s TMR1IF = false ->
  ticks es < freq_cnt s <= FREQ_CNT ->
  closes_gate (hw_raise e (run es s)) <->
  ev_t0if e = true /\ ticks es = freq_cnt s - 1.
Proof.
  unfold FREQ_CNT. intros H0 H1 Hc.
  assert (Hc' : ticks es < freq_cnt s <= 255) by lia.
  destruct (run_open_gate_outputs es s H0 H1 Hc') as [Rc [R0 _]].
  pose proof (ticks_nonneg es) as Hn.
  unfold closes_gate. rewrite tick_prologue_freq_cnt.
  change (freq_cnt (hw_raise e (run es s))) with (freq_cnt (run es s)).
  change (flag (hw_raise e (run es s)) T0IF)
    with (flag (run es s) T0IF || ev_t0if e)%bool.
  rewrite R0, Rc, u8_small by lia. cbn [orb].
  split; intros [Hf Hz]; (split; [exact Hf | lia]).
Qed.

Lemma gate_closes_on_last_tick_witness :
  let s := ei (freq_init power_on) in
  (closes_gate (hw_raise tick_ev (run (repeat tick_ev 199) s)) <->
   ev_t0if tick_ev = true /\ ticks (repeat tick_ev 199) = freq_cnt s - 1) /\
  (closes_gate (hw_raise tick_ev (run (repeat tick_ev 198) s)) <->
   ev_t0if tick_ev = true /\ ticks (repeat tick_ev 198) = freq_cnt s - 1).
Proof.
  intros s. split.
  - apply (gate_closes_on_last_tick s (repeat tick_ev 199) tick_ev);
      [reflexivity | reflexivity | split; run_code].
  - apply (gate_closes_on_last_tick s (repeat tick_ev 198) tick_ev);
      [reflexivity | reflexivity | split; run_code].
Defined.

(** X7: a gate closure zeroes the raw counter TMR1, and an overflow that
    is pending at the closing tick is served after the latch: [isr] then
    returns with its quantum 0x10000 in [freq], credited to the next
    window; otherwise [freq] is 0. *)
Theorem closure_resets_raw_counter (s : mcu) :
  closes_gate s ->
  sfr (isr s) TMR1 = 0 /\
  freq (isr s) = (if flag s TMR1IF then 0x10000 else 0).
Proof.
  intros Hg. destruct (isr_after_closure s Hg) as [_ [_ [Hf _]]].
  split.
  - unfold isr. rewrite tmr1_isr_sfr, tmr0_isr_sfr by discriminate.
    destruct Hg as [Ht Hz]. rewrite Ht, Hz. reflexivity.
  - rewrite Hf. destruct (flag s TMR1IF); reflexivity.
Qed.

Lemma closure_resets_raw_counter_witness :
  let s := hw_raise (HwEvent true true 0 40000)
                    (run (repeat overflow_ev 2 ++ repeat tick_ev 199)
                         (ei (freq_init power_on))) in
  closes_gate s /\ effective_count s = 2 * 65536 + 40000 /\
  sfr (isr s) TMR1 = 0 /\ freq (isr s) = 65536.
Proof.
  intros s.
  assert (Hg : closes_gate s) by (split; run_code).
  destruct (closure_resets_raw_counter s Hg) as [Ht Hf].
  split; [exact Hg |]. split; [run_code |]. split; [exact Ht | exact Hf].
Defined.


(** * The shape of the frequency-to-duty mapping *)

(** The duty published by a closure, below full scale, as a plain
    quotient. *)
Lemma isr_closure_duty s :
  closes_gate s -> effective_count s < 1024000 ->
  pwm_dc (isr s) =
    effective_count s / (if effective_count s <? 102400 then 400 else 4000) /\
  pin LED_PORT 1 (isr s) = (102400 <=? effective_count s).
Proof.
  intros Hg Hc. pose proof (effective_count_range s) as Hr.
  destruct (Z.ltb_spec (effective_count s) 102400) as [Hlo | Hhi].
  - destruct (isr_closure_low s Hg Hlo) as [Hd Hl]. rewrite Hd, Hl.
    split.
    + apply u8_small.
      split; [apply Z.div_pos; lia | apply Z.div_lt_upper_bound; lia].
    + symmetry. apply Z.leb_gt. exact Hlo.
  - destruct (isr_closure_high s Hg Hhi) as [Hd Hl]. rewrite Hd, Hl.
    split.
    + apply u8_small.
      split; [apply Z.div_pos; lia | apply Z.div_lt_upper_bound; lia].
    + symmetry. apply Z.leb_le. exact Hhi.
Qed.

Lemma div_bucket c q d :
  0 < q -> (c / q = d <-> q * d <= c < q * (d + 1)).
Proof.
  intros Hq. split.
  - intros <-. split.
    + apply Z.mul_div_le. exact Hq.
    + rewrite Z.mul_add_distr_l, Z.mul_1_r.
      pose proof (Z.mod_pos_bound c q Hq). pose proof (Z.div_mod c q). lia.
  - intros [Hlo Hhi]. symmetry.
    apply (Z.div_unique c q d (c - q * d)); lia.
Qed.

(** X8: the two ranges are a decade apart and read alike: a count in the
    low range and ten times that count in the high range publish the same
    duty, the first with the LED off and the second with the LED on. *)
Theorem decade_ranges_read_alike (s1 s2 : mcu) :
  closes_gate s1 -> closes_gate s2 ->
  effective_count s2 = 10 * effective_count s1 ->
  256 * FREQ_CNT * FREQ_HIGH / 100 <= effective_count s1
    < 256 * FREQ_CNT * FREQ_HIGH / 10 ->
  pwm_dc (isr s2) = pwm_dc (isr s1) /\
  pin LED_PORT 1 (isr s1) = false /\ pin LED_PORT 1 (isr s2) = true.
Proof.
  change (256 * FREQ_CNT * FREQ_HIGH / 100) with 10240.
  change (256 * FREQ_CNT * FREQ_HIGH / 10) with 102400.
  intros Hg1 Hg2 He Hc.
  destruct (isr_closure_duty s1 Hg1 ltac:(lia)) as [Hd1 Hl1].
  destruct (isr_closure_duty s2 Hg2 ltac:(lia)) as [Hd2 Hl2].
  rewrite Hd1, Hd2, Hl1, Hl2, He.
  destruct (Z.ltb_spec (effective_count s1) 102400) as [_ | Hx]; [| lia].
  destruct (Z.ltb_spec (10 * effective_count s1) 102400) as [Hx | _]; [lia |].
  split.
  - change 4000 with (10 * 400). apply Z.div_mul_cancel_l; lia.
  - split; [apply Z.leb_gt; lia | apply Z.leb_le; lia].
Qed.

Lemma decade_ranges_read_alike_witness :
  let s1 := closing 0 51200 in
  let s2 := closing 7 53248 in
  effective_count s1 = 51200 /\ effective_count s2 = 512000 /\
  pwm_dc (isr s1) = 128 /\ pwm_dc (isr s2) = pwm_dc (isr s1) /\
  pin LED_PORT 1 (isr s1) = false /\ pin LED_PORT 1 (isr s2) = true.
Proof.
  intros s1 s2.
  destruct (decade_ranges_read_alike s1 s2) as [Hd [Hl1 Hl2]];
    [split; run_code | split; run_code | run_code | split; run_code |].
  split; [run_code |]. split; [run_code |]. split; [run_code |].
  split; [exact Hd |]. split; [exact Hl1 | exact Hl2].
Defined.

(** X9: within one range, and below full scale, the published duty never
    falls as the count rises. *)
Theorem duty_monotone_within_range (s1 s2 : mcu) :
  closes_gate s1 -> closes_gate s2 ->
  effective_count s1 <= effective_count s2 ->
  effective_count s2 < 256 * FREQ_CNT * FREQ_HIGH / 10 \/
  (256 * FREQ_CNT * FREQ_HIGH / 10 <= effective_count s1 /\
   effective_count s2 < 256 * FREQ_CNT * FREQ_HIGH) ->
  pwm_dc (isr s1) <= pwm_dc (isr s2).
Proof.
  change (256 * FREQ_CNT * FREQ_HIGH / 10) with 102400.
  change (256 * FREQ_CNT * FREQ_HIGH) with 1024000.
  intros Hg1 Hg2 Hle Hr.
  destruct (isr_closure_duty s1 Hg1 ltac:(lia)) as [Hd1 _].
  destruct (isr_closure_duty s2 Hg2 ltac:(lia)) as [Hd2 _].
  rewrite Hd1, Hd2.
  destruct (Z.ltb_spec (effective_count s1) 102400);
    destruct (Z.ltb_spec (effective_count s2) 102400);
    try lia; apply Z.div_le_mono; lia.
Qed.

Lemma duty_monotone_within_range_witness :
  let s1 := closing 3 0 in
  let s2 := closing 9 100 in
  102400 <= effective_count s1 /\ effective_count s1 <= effective_count s2 /\
  pwm_dc (isr s1) = 49 /\ pwm_dc (isr s2) = 147 /\
  pwm_dc (isr s1) <= pwm_dc (isr s2).
Proof.
  intros s1 s2.
  assert (Hm : pwm_dc (isr s1) <= pwm_dc (isr s2)).
  { apply (duty_monotone_within_range s1 s2);
      [split; run_code | split; run_code | run_code |].
    right. split; run_code. }
  split; [run_code |]. split; [run_code |]. split; [run_code |].
  split; [run_code | exact Hm].
Defined.

(** X10: in the high range below full scale the published duty lies
    between 25 and 255: the lowest tenth of the scale is left to the low
    range. *)
Theorem high_range_duty_bounds (s : mcu) :
  closes_gate s ->
  256 * FREQ_CNT * FREQ_HIGH / 10 <= effective_count s
    < 256 * FREQ_CNT * FREQ_HIGH ->
  25 <= pwm_dc (isr s) <= 255.
Proof.
  change (256 * FREQ_CNT * FREQ_HIGH / 10) with 102400.
  change (256 * FREQ_CNT * FREQ_HIGH) with 1024000.
  intros Hg Hc.
  destruct (isr_closure_duty s Hg ltac:(lia)) as [Hd _]. rewrite Hd.
  destruct (Z.ltb_spec (effective_count s) 102400) as [Hx | _]; [lia |].
  split.
  - apply Z.div_le_lower_bound; lia.
  - assert (effective_count s / 4000 < 256)
      by (apply Z.div_lt_upper_bound; lia).
    lia.
Qed.

Lemma high_range_duty_bounds_witness :
  let s := closing 4 1000 in
  effective_count s = 263144 /\ pwm_dc (isr s) = 65 /\
  25 <= pwm_dc (isr s) <= 255.
Proof.
  intros s.
  assert (Hb : 25 <= pwm_dc (isr s) <= 255)
    by (apply (high_range_duty_bounds s); split; run_code).
  split; [run_code |]. split; [run_code | exact Hb].
Defined.

(** X11: the quantisation of the read-out.  Below full scale a closure
    publishes the duty [d] exactly for the counts of one bucket, 400 counts
    wide in the low range and 4000 counts wide in the high range. *)
Theorem duty_buckets (s : mcu) (d : Z) :
  closes_gate s ->
  effective_count s < 256 * FREQ_CNT * FREQ_HIGH ->
  let c := effective_count s in
  let w := if c <? 256 * FREQ_CNT * FREQ_HIGH / 10
           then FREQ_CNT * FREQ_HIGH / 10 else FREQ_CNT * FREQ_HIGH in
  pwm_dc (isr s) = d <-> w * d <= c < w * (d + 1).
Proof.
  change (256 * FREQ_CNT * FREQ_HIGH / 10) with 102400.
  change (256 * FREQ_CNT * FREQ_HIGH) with 1024000.
  change (FREQ_CNT * FREQ_HIGH / 10) with 400.
  change (FREQ_CNT * FREQ_HIGH) with 4000.
  intros Hg Hc c w.
  destruct (isr_closure_duty s Hg Hc) as [Hd _]. rewrite Hd.
  apply div_bucket. unfold w, c.
  destruct (effective_count s <? 102400); lia.
Qed.

Lemma duty_buckets_witness :
  let s := closing 0 51599 in
  effective_count s = 51599 /\
  (pwm_dc (isr s) = 128 <-> 400 * 128 <= effective_count s < 400 * (128 + 1)) /\
  pwm_dc (isr s) = 128.
Proof.
  intros s.
  assert (Hb : pwm_dc (isr s) = 128 <->
               400 * 128 <= effective_count s < 400 * (128 + 1))
    by (apply (duty_buckets s 128); [split; run_code | run_code]).
  split; [run_code |]. split; [exact Hb |].
  apply Hb. split; run_code.
Defined.


(** * The PWM period *)

Lemma pwm_output_pin_compare s :
  pin PWM_PORT 0 (pwm_output s) = (sfr s PWM_CNT <=? pwm_dc s).
Proof.
  unfold pwm_output.
  destruct (Z.gtb_spec (sfr s PWM_CNT) (pwm_dc s)) as [Hgt | Hle].
  - rewrite (IO_CLR_GPIO_pin 0) by lia. symmetry. apply Z.leb_gt. lia.
  - rewrite (IO_SET_GPIO_pin 0) by lia. symmetry. apply Z.leb_le. exact Hle.
Qed.

Lemma count_up_to d n :
  0 <= d ->
  length (filter (fun t => t <=? d) (map Z.of_nat (seq 0 n)))
  = Nat.min n (Z.to_nat d + 1).
Proof.
  intros Hd. induction n as [| n IH]; [reflexivity |].
  rewrite seq_S, map_app, filter_app, length_app, IH. cbn [map filter Nat.add].
  destruct (Z.leb_spec (Z.of_nat n) d) as [Hle | Hgt]; cbn [length]; lia.
Qed.

(** X12: over the 256 values TMR0 runs through, a pass of the output loop
    leaves the PWM pin high at exactly [pwm_dc + 1] of them: the pin is high
    for 1/256 of the period even at duty 0 and all the time at duty 255. *)
Theorem pwm_high_time (s : mcu) :
  0 <= pwm_dc s < 256 -> high_time s = pwm_dc s + 1.
Proof.
  intros Hd. unfold high_time, tmr0_values.
  rewrite (filter_ext_in _ (fun t => t <=? pwm_dc s)).
  - rewrite count_up_to by lia. lia.
  - intros t Ht. apply in_map_iff in Ht. destruct Ht as [k [<- Hk]].
    apply in_seq in Hk. rewrite pwm_output_pin_compare.
    change (sfr (set_sfr PWM_CNT (Z.of_nat k) s) PWM_CNT) with (u8 (Z.of_nat k)).
    change (pwm_dc (set_sfr PWM_CNT (Z.of_nat k) s)) with (pwm_dc s).
    rewrite u8_small by lia. reflexivity.
Qed.

Lemma pwm_high_time_witness :
  let s := isr (closing 1 36864) in
  pwm_dc s = 25 /\ high_time s = 26.
Proof.
  intros s.
  assert (Hd : 0 <= pwm_dc s < 256) by (split; run_code).
  pose proof (pwm_high_time s Hd) as Hh.
  split; [run_code |]. etransitivity; [exact Hh | run_code].
Defined.


(** * From interrupts to the read-out *)

Lemma isr_closure_tmr1 s : closes_gate s -> sfr (isr s) TMR1 = 0.
Proof.
  intros [Ht Hz]. unfold isr.
  rewrite tmr1_isr_sfr, tmr0_isr_sfr by discriminate.
  rewrite Ht, Hz. reflexivity.
Qed.

(** What a closing interrupt publishes, given the count its latch takes. *)
Lemma closing_irq_reading s1 c :
  closes_gate s1 -> effective_count s1 = c -> c < 1024000 ->
  pwm_dc (isr s1) = c / (if c <? 102400 then 400 else 4000) /\
  pin LED_PORT 1 (isr s1) = (102400 <=? c) /\
  freq_cnt (isr s1) = FREQ_CNT /\
  sfr (isr s1) TMR1 = 0.
Proof.
  intros Hg He Hc. subst c.
  destruct (isr_closure_duty s1 Hg Hc) as [Hd Hl].
  destruct (isr_after_closure s1 Hg) as [_ [_ [_ Hk]]].
  split; [exact Hd |]. split; [exact Hl |]. split; [exact Hk |].
  apply isr_closure_tmr1. exact Hg.
Qed.

(** X13: one gate window, end to end.  After a gate closure, 199 timer
    ticks and [n] overflow-handler firings, the 200th tick with [r] in TMR1
    publishes the reading of the count [c = n * 65536 + r]: below full
    scale, the duty is [c / 400] with the LED off when [c < 102400] and
    [c / 4000] with the LED on otherwise; the downcounter is reloaded and
    TMR1 zeroed for the next window. *)
Theorem gate_window_reading
    (s0 : mcu) (es : list hw_event) (o : bool) (z0 r : Z) :
  closes_gate s0 ->
  ticks es = FREQ_CNT - 1 ->
  0 <= r < 2 ^ 16 ->
  let n := (if flag s0 TMR1IF then 1 else 0) + overflows es in
  let c := n * 2 ^ 16 + r in
  c < 256 * FREQ_CNT * FREQ_HIGH ->
  let s2 := irq (HwEvent true o z0 r) (run es (isr s0)) in
  pwm_dc s2 =
    c / (if c <? 256 * FREQ_CNT * FREQ_HIGH / 10
         then FREQ_CNT * FREQ_HIGH / 10 else FREQ_CNT * FREQ_HIGH) /\
  pin LED_PORT 1 s2 = (256 * FREQ_CNT * FREQ_HIGH / 10 <=? c) /\
  freq_cnt s2 = FREQ_CNT /\
  sfr s2 TMR1 = 0.
Proof.
  change (256 * FREQ_CNT * FREQ_HIGH / 10) with 102400.
  change (256 * FREQ_CNT * FREQ_HIGH) with 1024000.
  change (FREQ_CNT * FREQ_HIGH / 10) with 400.
  change (FREQ_CNT * FREQ_HIGH) with 4000.
  intros Hg Ht Hr n c Hc s2.
  destruct (isr_after_closure s0 Hg) as [G0 [G1 [Gf Gc]]].
  assert (Hk : 0 <= (if flag s0 TMR1IF then 1 else 0))
    by (destruct (flag s0 TMR1IF); lia).
  assert (Hcnt : 1 <= freq_cnt (isr s0) <= FREQ_CNT)
    by (rewrite Gc; unfold FREQ_CNT; lia).
  assert (Ht' : ticks es = freq_cnt (isr s0) - 1) by (rewrite Gc; exact Ht).
  destruct (gate_window_count (isr s0) es o z0 r _ G0 G1 Hk Gf Hcnt Ht' Hr)
    as [Hg1 [_ [_ He]]].
  pose proof (overflows_nonneg es) as Hn.
  assert (Hlt : n < 2 ^ 16).
  { unfold c in Hc. change (2 ^ 16) with 65536 in *. unfold n in *. lia. }
  apply closing_irq_reading; [exact Hg1 | exact (He Hlt) | exact Hc].
Qed.

Lemma gate_window_reading_witness :
  let s0 := closing 0 0 in
  let es := repeat overflow_ev 5 ++ repeat tick_ev 199 in
  let s2 := irq (HwEvent true false 0 32320) (run es (isr s0)) in
  closes_gate s0 /\ overflows es = 5 /\
  pwm_dc s2 = 90 /\ pin LED_PORT 1 s2 = true /\
  freq_cnt s2 = FREQ_CNT /\ sfr s2 TMR1 = 0.
Proof.
  intros s0 es s2.
  assert (Hg : closes_gate s0) by (split; run_code).
  assert (Ht : ticks es = FREQ_CNT - 1) by run_code.
  assert (Hr : 0 <= 32320 < 2 ^ 16) by (split; run_code).
  destruct (gate_window_reading s0 es false 0 32320 Hg Ht Hr)
    as [Hd [Hl [Hc Hz]]]; [run_code |].
  split; [exact Hg |]. split; [run_code |].
  split; [etransitivity; [exact Hd | run_code] |].
  split; [etransitivity; [exact Hl | run_code] |].
  split; [exact Hc | exact Hz].
Defined.

(** X14: [freq_init] arms the first gate window but never writes [freq]:
    whatever multiple [k] of the quantum the accumulator holds on entry is
    counted into the first window, whose closing tick, the 200th after
    [freq_init], latches [((k + overflows) * 65536 + r) mod 2 ^ 32].  With
    the accumulator zero on entry that is [overflows * 65536 + r]. *)
Theorem first_window_after_init
    (s0 : mcu) (es : list hw_event) (o : bool) (z0 r k : Z) :
  0 <= k ->
  freq s0 = u32 (k * 2 ^ 16) ->
  ticks es = FREQ_CNT - 1 ->
  0 <= r < 2 ^ 16 ->
  let s1 := hw_raise (HwEvent true o z0 r) (run es (ei (freq_init s0))) in
  closes_gate s1 /\
  effective_count s1 = ((k + overflows es) * 2 ^ 16 + r) mod 2 ^ 32 /\
  (k = 0 -> overflows es < 2 ^ 16 ->
   effective_count s1 = overflows es * 2 ^ 16 + r).
Proof.
  intros Hk Hf Ht Hr s1.
  assert (Hc : 1 <= freq_cnt (ei (freq_init s0)) <= FREQ_CNT)
    by (vm_compute; split; discriminate).
  destruct (gate_window_count (ei (freq_init s0)) es o z0 r k
              eq_refl eq_refl Hk Hf Hc Ht Hr) as [Hg [_ [He Hs]]].
  split; [exact Hg |]. split; [exact He |].
  intros -> Hn. apply Hs. exact Hn.
Qed.

Lemma first_window_after_init_witness :
  let s0 := set_freq (3 * 65536) power_on in
  let es := repeat overflow_ev 2 ++ repeat tick_ev 199 in
  let s1 := hw_raise (HwEvent true false 0 77) (run es (ei (freq_init s0))) in
  freq s0 = 3 * 65536 /\ overflows es = 2 /\
  closes_gate s1 /\ effective_count s1 = 5 * 65536 + 77.
Proof.
  intros s0 es s1.
  destruct (first_window_after_init s0 es false 0 77 3) as [Hg [He _]];
    [run_code | run_code | run_code | split; run_code |].
  split; [run_code |]. split; [run_code |]. split; [exact Hg |].
  etransitivity; [exact He | run_code].
Defined.


(** * Pin set-up *)

Lemma clear_pin_bits x k n :
  0 <= n < 8 ->
  Z.testbit (u8 (Z.land x (Z.lnot (Z.shiftl 1 k)))) n
  = (Z.testbit x n && negb (n =? k))%bool.
Proof.
  intros Hn. unfold u8. rewrite Z.mod_pow2_bits_low by lia.
  rewrite Z.land_spec, Z.lnot_spec, testbit_pin_mask by lia. reflexivity.
Qed.

(** X15: [freq_init] makes the PWM and LED pins outputs and leaves the
    direction of every other pin alone; it drives the PWM pin low but never
    drives the LED pin, which like the remaining GPIO pins keeps the level
    it had. *)
Theorem freq_init_pins (s : mcu) (n : Z) :
  0 <= n < 8 ->
  pin TRISIO n (freq_init s) = (if n <=? 1 then false else pin TRISIO n s) /\
  pin GPIO n (freq_init s) = (if n =? 0 then false else pin GPIO n s).
Proof.
  intros Hn. unfold pin.
  change (sfr (freq_init s) TRISIO)
    with (u8 (Z.land (u8 (Z.land (sfr s TRISIO) (Z.lnot (Z.shiftl 1 1))))
                     (Z.lnot (Z.shiftl 1 0)))).
  change (sfr (freq_init s) GPIO)
    with (u8 (Z.land (sfr s GPIO) (Z.lnot (Z.shiftl 1 0)))).
  rewrite !clear_pin_bits by exact Hn.
  destruct (Z.eqb_spec n 0) as [-> | H0]; [split; [| apply andb_false_r] |].
  - apply andb_false_r.
  - destruct (Z.eqb_spec n 1) as [-> | H1].
    + split; [rewrite andb_false_r; reflexivity | apply andb_true_r].
    + destruct (Z.leb_spec n 1) as [Hle | _]; [lia |].
      split; [rewrite !andb_true_r; reflexivity | apply andb_true_r].
Qed.

Lemma freq_init_pins_witness :
  let s := set_sfr GPIO 255 (set_sfr TRISIO 255 power_on) in
  sfr (freq_init s) TRISIO = 252 /\ sfr (freq_init s) GPIO = 254 /\
  pin TRISIO 1 (freq_init s) = false /\ pin GPIO 1 (freq_init s) = pin GPIO 1 s.
Proof.
  intros s.
  assert (H1 : 0 <= 1 < 8) by (split; run_code).
  destruct (freq_init_pins s 1 H1) as [Ht Hg].
  split; [run_code |]. split; [run_code |]. split; [exact Ht | exact Hg].
Defined.
